(** * Podcast Explorer: the fetch helpers and the show-detail view

  A shallow embedding of [src/api/fetchPodcasts.js] (the two fetch helpers
  [fetchPodcasts] and [fetchShowDetails]), of the state and the derived
  values of [src/components/ShowDetailPage.jsx], and of the state and the
  error banner of [src/App.jsx].

    Conventions.
    - A React state cell is a record field; a setter [setX v] is a function
    on the record.  The fetch helpers receive their setters as arguments,
    as in the source, and are therefore polymorphic in the state they
    update.
    - An [async] function is cut at its [await]: the part that runs
    synchronously when the function is called, and the part that runs when
    the awaited promise settles.  The settled promise is an explicit
    value ([Settled]) chosen by the environment.
    - [throw]/[catch] is a sum type: [inl] is a thrown [Error], [inr] a
    normal result.
    - JavaScript strings are [string]; numbers that the code only uses as
    integers are [Z], [N] or [nat].  [console.error] writes to the console
    only and is not part of the state. *)

From Stdlib Require Import ZArith NArith List String Ascii Bool Lia.
From Stdlib Require Import Numbers.DecimalString.
Import ListNotations.

Open Scope string_scope.

(** ** JavaScript primitives used by the code *)

Module JS.

(** Template-literal conversion [`${n}`] of an integer number. *)
Definition string_of_Z (n : Z) : string :=
  NilZero.string_of_int (Z.to_int n).

Definition string_of_N (n : N) : string :=
  NilZero.string_of_uint (N.to_uint n).

(** Truthiness of a value that is either [null] or a string. *)
Definition truthy (v : option string) : bool :=
  match v with
  | None => false
  | Some s => negb (String.eqb s "")
  end.

(** [String.prototype.substring(indexStart, indexEnd)]: both indices are
    clamped to [0, length], and swapped when they come in the wrong
    order. *)
Definition clamp (x len : Z) : Z := Z.min (Z.max x 0) len.

Definition substring (s : string) (indexStart indexEnd : Z) : string :=
  let len := Z.of_nat (String.length s) in
  let intStart := clamp indexStart len in
  let intEnd := clamp indexEnd len in
  let from := Z.min intStart intEnd in
  let to := Z.max intStart intEnd in
  String.substring (Z.to_nat from) (Z.to_nat (to - from)) s.

(** [Array.prototype.find]: the first element satisfying the predicate,
    or [undefined]. *)
Definition find {A : Type} (p : A -> bool) (l : list A) : option A :=
  List.find p l.

(** [Array.prototype.reduce] with an initial value. *)
Definition reduce {A B : Type} (f : B -> A -> B) (init : B) (l : list A) : B :=
  List.fold_left f l init.

(** [arr[i]] for a number [i]: [undefined] outside the array. *)
Definition index {A : Type} (l : list A) (i : Z) : option A :=
  if (i <? 0)%Z then None else List.nth_error l (Z.to_nat i).

End JS.

(** ** Data model (the typedefs of [fetchPodcasts.js])

    A parsed body is taken to have the shape its typedef declares: it is an
    object, hence truthy in [if (data)], and its [genres] and [seasons] are
    arrays, hence truthy in [!show.genres], [!show.seasons] and
    [data.seasons && ...]. *)

Module PodcastPreview.
Record t : Type := mk
  { id : string;
    title : string;
    image : string;
    seasons : nat;
    updated : string;
    genres : list Z }.
End PodcastPreview.

Module Episode.
Record t : Type := mk
  { title : string;
    description : string;
    file : string }.
End Episode.

Module Season.
Record t : Type := mk
  { season : Z;
    title : string;
    image : string;
    episodes : list Episode.t }.
End Season.

Module PodcastShow.
Record t : Type := mk
  { id : string;
    title : string;
    description : string;
    image : string;
    updated : string;
    genres : list Z;
    seasons : list Season.t }.
End PodcastShow.

(** An entry of the static genre list imported from [./data]; the code reads
  its fields [id] and [title]. *)
Module Genre.
Record t : Type := mk
  { id : Z;
    title : string }.
End Genre.

(** ** The network, as the fetch helpers see it *)

Module Http.

(** A thrown JavaScript [Error]; the handlers read only [message]. *)
Record Error : Type := mkError { message : string }.

(** Result of [res.json()]: the parsed body, or a rejection. *)
Inductive Body (A : Type) : Type :=
  | BadJson (e : Error)
  | Json (data : A).
Arguments BadJson {A} e.
Arguments Json {A} data.

Record Response (A : Type) : Type := mkResponse
  { status : N;
    body : Body A }.
Arguments mkResponse {A} status body.
Arguments status {A} r.
Arguments body {A} r.

(** [res.ok]: the status is in the range 200-299. *)
Definition ok {A : Type} (res : Response A) : bool :=
  ((200 <=? status res) && (status res <=? 299))%N.

(** How the promise returned by [fetch(url)] settles. *)
Inductive Settled (A : Type) : Type :=
  | Rejected (e : Error)
  | Fulfilled (res : Response A).
Arguments Rejected {A} e.
Arguments Fulfilled {A} res.

End Http.

(** ** [src/api/fetchPodcasts.js] *)

Module Api.
Import Http.

Definition showsUrl : string := "https://podcast-api.netlify.app/shows".

Definition showUrl (showId : string) : string :=
  "https://podcast-api.netlify.app/id/" ++ showId.

(** The [try] block of [fetchPodcasts], after [fetch] has settled. *)
Definition fetchPodcasts_try {S : Type}
    (setPodcasts : list PodcastPreview.t -> S -> S)
    (o : Settled (list PodcastPreview.t)) (st : S) : Error + S :=
  match o with
  | Rejected e => inl e
  | Fulfilled res =>
      if negb (ok res) then inl (mkError (JS.string_of_N (status res)))
      else match body res with
           | BadJson e => inl e
           | Json data => inr (setPodcasts data st)
           end
  end.

(** [fetchPodcasts(setPodcasts, setError, setLoading)].  It calls no setter
    before its first [await], so its whole effect on the state happens when
    the request settles: [try], then [catch], then [finally]. *)
Definition fetchPodcasts {S : Type}
    (setPodcasts : list PodcastPreview.t -> S -> S)
    (setError : string -> S -> S)
    (setLoading : bool -> S -> S)
    (o : Settled (list PodcastPreview.t)) (st : S) : S :=
  let st' :=
    match fetchPodcasts_try setPodcasts o st with
    | inr st1 => st1
    | inl err => setError (message err) st
    end in
  setLoading false st'.

(** Synchronous prefix of [fetchShowDetails(showId, setLoading, setError)],
    up to [await fetch(...)]: the two setter calls, and the URL requested. *)
Definition fetchShowDetails_begin {S : Type} (showId : string)
    (setLoading : bool -> S -> S) (setError : option string -> S -> S)
    (st : S) : string * S :=
  (showUrl showId, setError None (setLoading true st)).

(** The [try] block of [fetchShowDetails], after [fetch] has settled.  No
    setter is called between its two [await]s, so they are one step. *)
Definition fetchShowDetails_try (o : Settled PodcastShow.t)
  : Error + PodcastShow.t :=
  match o with
  | Rejected e => inl e
  | Fulfilled res =>
      if negb (ok res) then
        if (status res =? 404)%N then inl (mkError "Show not found.")
        else inl (mkError ("Failed to fetch show details: "
                           ++ JS.string_of_N (status res)))
      else match body res with
           | BadJson e => inl e
           | Json data => inr data
           end
  end.

(** Rest of [fetchShowDetails]: [try], [catch], [finally].  The first
    component is the value the returned promise resolves with ([None] is
    [null]). *)
Definition fetchShowDetails_resume {S : Type}
    (setLoading : bool -> S -> S) (setError : option string -> S -> S)
    (o : Settled PodcastShow.t) (st : S) : option PodcastShow.t * S :=
  match fetchShowDetails_try o with
  | inr data => (Some data, setLoading false st)
  | inl err => (None, setLoading false (setError (Some (message err)) st))
  end.

(** [fetchShowDetails] when nothing else touches the state while its request
    is pending: the prefix, then the rest. *)
Definition fetchShowDetails {S : Type} (showId : string)
    (setLoading : bool -> S -> S) (setError : option string -> S -> S)
    (o : Settled PodcastShow.t) (st : S) : option PodcastShow.t * S :=
  fetchShowDetails_resume setLoading setError o
    (snd (fetchShowDetails_begin showId setLoading setError st)).

End Api.

(** ** [src/components/ShowDetailPage.jsx] *)

Module ShowDetailPage.
Import Http.

(** The four [useState] cells of the component. *)
Record State : Type := mkState
  { show : option PodcastShow.t;
    loading : bool;
    error : option string;
    selectedSeasonIndex : Z }.

Definition setShow (v : option PodcastShow.t) (st : State) : State :=
  mkState v (loading st) (error st) (selectedSeasonIndex st).

Definition setLoading (v : bool) (st : State) : State :=
  mkState (show st) v (error st) (selectedSeasonIndex st).

Definition setError (v : option string) (st : State) : State :=
  mkState (show st) (loading st) v (selectedSeasonIndex st).

Definition setSelectedSeasonIndex (v : Z) (st : State) : State :=
  mkState (show st) (loading st) (error st) v.

(** [useState(null)], [useState(true)], [useState(null)], [useState(0)]. *)
Definition initial : State := mkState None true None 0.

(** [loadShowDetails], up to its [await]: the call of [fetchShowDetails]
    runs that function's synchronous prefix. *)
Definition loadShowDetails_begin (id : string) (st : State) : string * State :=
  Api.fetchShowDetails_begin id setLoading setError st.

(** [loadShowDetails], from the moment the request settles: the rest of
    [fetchShowDetails], then the [if (data)] block.  An array is truthy even
    when empty, so [data.seasons && data.seasons.length > 0] is the length
    test. *)
Definition loadShowDetails_resume (o : Settled PodcastShow.t) (st : State)
  : State :=
  let (data, st1) := Api.fetchShowDetails_resume setLoading setError o st in
  match data with
  | Some data =>
      let st2 := setShow (Some data) st1 in
      if (0 <? List.length (PodcastShow.seasons data))%nat
      then setSelectedSeasonIndex 0 st2
      else st2
  | None => st1
  end.

(** A rendered [<span key={genreId}>label</span>]. *)
Record GenreTag : Type := mkGenreTag
  { key : Z;
    label : string }.

(** The [genreTags] memo. *)
Definition genreTags (show : option PodcastShow.t) (allGenres : list Genre.t)
  : list GenreTag :=
  match show with
  | None => []
  | Some show =>
      List.map
        (fun genreId =>
           let genreMatch :=
             JS.find (fun g => (Genre.id g =? genreId)%Z) allGenres in
           mkGenreTag genreId
             match genreMatch with
             | Some g => Genre.title g
             | None => "Unknown (" ++ JS.string_of_Z genreId ++ ")"
             end)
        (PodcastShow.genres show)
  end.

(** The texts of the genre tags, in display order. *)
Definition genreLabels (detail : PodcastShow.t) (referenceGenres : list Genre.t)
  : list string :=
  List.map label (genreTags (Some detail) referenceGenres).

(** The [totalEpisodes] memo. *)
Definition totalEpisodes (show : option PodcastShow.t) : nat :=
  match show with
  | None => 0
  | Some show =>
      JS.reduce (fun acc season => acc + List.length (Season.episodes season))
        0 (PodcastShow.seasons show)
  end.

(** [handleSeasonChange], applied to the numeric value of the chosen
    option. *)
Definition handleSeasonChange (value : Z) (st : State) : State :=
  setSelectedSeasonIndex value st.

(** [const currentSeason = show.seasons[selectedSeasonIndex]]. *)
Definition currentSeason (show : PodcastShow.t) (selectedSeasonIndex : Z)
  : option Season.t :=
  JS.index (PodcastShow.seasons show) selectedSeasonIndex.

(** The text of an episode card's description paragraph. *)
Definition episodeSummary (episode : Episode.t) : string :=
  JS.substring (Episode.description episode) 0 150 ++ "...".

(** One card of the episodes grid. *)
Record EpisodeCard : Type := mkEpisodeCard
  { number : nat;
    heading : string;
    summary : string }.

Fixpoint episodeCards_from (index : nat) (episodes : list Episode.t)
  : list EpisodeCard :=
  match episodes with
  | [] => []
  | episode :: rest =>
      mkEpisodeCard (index + 1) (Episode.title episode) (episodeSummary episode)
        :: episodeCards_from (S index) rest
  end.

(** The values of the [<option>]s of the season [<select>]. *)
Definition seasonOptions (show : PodcastShow.t) : list Z :=
  List.map Z.of_nat (List.seq 0 (List.length (PodcastShow.seasons show))).

(** What the component returns. *)
Inductive View : Type :=
| LoadingView
| ErrorView (message : string)
| NotFoundView
| DetailView (show : PodcastShow.t) (tags : list GenreTag) (total : nat)
    (options : list Z) (selected : Z)
    (episodeList : option (Season.t * list EpisodeCard)).

Definition render (allGenres : list Genre.t) (st : State) : View :=
  if loading st then LoadingView
  else if JS.truthy (error st) then
    match error st with
    | Some e => ErrorView e
    | None => NotFoundView
    end
  else
    match show st with
    | None => NotFoundView
    | Some s =>
        let cur := currentSeason s (selectedSeasonIndex st) in
        DetailView s (genreTags (show st) allGenres) (totalEpisodes (show st))
          (seasonOptions s) (selectedSeasonIndex st)
          match cur with
          | Some season =>
              Some (season, episodeCards_from 0 (Season.episodes season))
          | None => None
          end
    end.

(** *** The component over time

    The route parameter [id], the component state, and the invocations of
    [loadShowDetails] whose request has not settled yet (oldest first, by
    the id each was started for).  The effect has no cleanup function, so
    an invocation keeps running after [id] has changed. *)
Record World : Type := mkWorld
  { page : State;
    id : string;
    pending : list string }.

Inductive Event : Type :=
| Navigate (id' : string)
| Settle (k : nat) (o : Settled PodcastShow.t)
| SeasonChange (value : Z).

Definition delete_at {A : Type} (k : nat) (l : list A) : list A :=
  List.firstn k l ++ List.skipn (S k) l.

(** First render for route parameter [id]: the effect runs once. *)
Definition mount (id : string) : World :=
  mkWorld (snd (loadShowDetails_begin id initial)) id [id].

(** The values a change event of the [<select>] can carry: the select is on
    screen only in the detail view, and offers [seasonOptions]. *)
Definition offered (st : State) : list Z :=
  if loading st then []
  else if JS.truthy (error st) then []
  else match show st with
       | None => []
       | Some s => seasonOptions s
       end.

Definition dispatch (e : Event) (w : World) : World :=
  match e with
  | Navigate id' =>
      (* the effect depends on [id] and re-runs only when it changes *)
      if String.eqb id' (id w) then w
      else mkWorld (snd (loadShowDetails_begin id' (page w))) id'
             (pending w ++ [id'])
  | Settle k o =>
      match List.nth_error (pending w) k with
      | Some _ =>
          mkWorld (loadShowDetails_resume o (page w)) (id w)
            (delete_at k (pending w))
      | None => w
      end
  | SeasonChange value =>
      if List.existsb (Z.eqb value) (offered (page w))
      then mkWorld (handleSeasonChange value (page w)) (id w) (pending w)
      else w
  end.

Fixpoint run (events : list Event) (w : World) : World :=
  match events with
  | [] => w
  | e :: rest => run rest (dispatch e w)
  end.

End ShowDetailPage.

(** ** [src/App.jsx] *)

Module App.
Import Http.

Record State : Type := mkState
  { podcasts : list PodcastPreview.t;
    loading : bool;
    error : option string }.

Definition setPodcasts (v : list PodcastPreview.t) (st : State) : State :=
  mkState v (loading st) (error st).

Definition setError (v : string) (st : State) : State :=
  mkState (podcasts st) (loading st) (Some v).

Definition setLoading (v : bool) (st : State) : State :=
  mkState (podcasts st) v (error st).

(** [useState([])], [useState(true)], [useState(null)]. *)
Definition initial : State := mkState [] true None.

(** The mount effect: [fetchPodcasts(setPodcasts, setError, setLoading)]. *)
Definition fetchCatalog (o : Settled (list PodcastPreview.t)) (st : State)
  : State :=
  Api.fetchPodcasts setPodcasts setError setLoading o st.

(** The text of the error banner, [None] when it is not rendered. *)
Definition errorBanner (st : State) : option string :=
  if JS.truthy (error st) then
    match error st with
    | Some e => Some ("Error occurred while fetching podcasts: " ++ e)
    | None => None
    end
  else None.

(** Whether the grid and the pagination are rendered. *)
Definition showsGrid (st : State) : bool :=
  negb (loading st) && negb (JS.truthy (error st)).

End App.

(** ** Vocabulary of the properties *)

Module Props.
Import Http ShowDetailPage.

(** A request that does not deliver a show: the transport failed, the status
    is not a success status, or the body did not parse. *)
Definition failed {A : Type} (o : Settled A) : bool :=
  match o with
  | Rejected _ => true
  | Fulfilled res =>
      negb (ok res)
      || match body res with
         | BadJson _ => true
         | Json _ => false
         end
  end.

(** A successful response carrying [data]. *)
Definition delivers {A : Type} (o : Settled A) (data : A) : Prop :=
  exists status, (200 <= status <= 299)%N
                 /\ o = Fulfilled (mkResponse status (Json data)).

(** The selected season index points into the seasons of the loaded show,
    when there is a loaded show with at least one season. *)
Definition valid_index (st : State) : Prop :=
  match show st with
  | Some s =>
      PodcastShow.seasons s <> [] ->
      (0 <= selectedSeasonIndex st
       < Z.of_nat (List.length (PodcastShow.seasons s)))%Z
  | None => True
  end.

(** An event that ends an invocation with a failure. *)
Definition failing_settle (e : Event) : bool :=
  match e with
  | Settle _ o => failed o
  | _ => false
  end.

(** [g] is the first entry of [l] whose id is [genreId]. *)
Definition first_match (l : list Genre.t) (genreId : Z) (g : Genre.t) : Prop :=
  exists before after,
    l = (before ++ g :: after)%list
    /\ Genre.id g = genreId
    /\ forall g', In g' before -> Genre.id g' <> genreId.

End Props.

(** ** Concrete shows and responses for the scenarios *)

Module Scenario.
Import Http.

Definition episode (n : string) : Episode.t :=
  Episode.mk ("Episode " ++ n) "0123456789" ("https://example.org/" ++ n).

Definition showA : PodcastShow.t :=
  PodcastShow.mk "A" "Show A" "first show" "a.png" "2022-11-03T07:00:00.000Z"
    [1; 99]%Z
    [ Season.mk 1 "Season 1" "a1.png" [episode "1"; episode "2"];
      Season.mk 2 "Season 2" "a2.png" [episode "3"];
      Season.mk 3 "Season 3" "a3.png" [] ].

Definition showB : PodcastShow.t :=
  PodcastShow.mk "B" "Show B" "second show" "b.png" "2023-01-01T00:00:00.000Z"
    [2]%Z [].

Definition success (data : PodcastShow.t) : Settled PodcastShow.t :=
  Fulfilled (mkResponse 200 (Json data)).

Definition notFound : Settled PodcastShow.t :=
  Fulfilled (mkResponse 404 (BadJson (mkError "Unexpected token"))).

Definition comedy : list Genre.t := [Genre.mk 1 "Comedy"].

End Scenario.

(** ** More of the markup of [ShowDetailPage.jsx] *)

Module Markup.

(** A rendered [<option key={season.season} value={index}>Season
    {season.season}</option>] of the season select. *)
Record SeasonOption : Type := mkSeasonOption
  { optionKey : Z;
    optionValue : Z;
    optionText : string }.

(** [show.seasons.map((season, index) => <option ...>)], from a starting
    index. *)
Fixpoint seasonOptionElements_from (index : nat) (seasons : list Season.t)
  : list SeasonOption :=
  match seasons with
  | [] => []
  | season :: rest =>
      mkSeasonOption (Season.season season) (Z.of_nat index)
        ("Season " ++ JS.string_of_Z (Season.season season))
        :: seasonOptionElements_from (S index) rest
  end.

Definition seasonOptionElements (show : PodcastShow.t) : list SeasonOption :=
  seasonOptionElements_from 0 (PodcastShow.seasons show).

End Markup.

(** ** What [App] renders on the route [/] *)

Module AppView.

(** The three conditional regions of [<main>]: [{loading && ...}],
    [{error && ...}] and [{!loading && !error && ...}]. *)
Record View : Type := mkView
  { spinner : bool;
    banner : option string;
    grid : bool }.

Definition render (st : App.State) : View :=
  mkView (App.loading st) (App.errorBanner st) (App.showsGrid st).

(** Number of regions on screen. *)
Definition regions (v : View) : nat :=
  (if spinner v then 1 else 0)
  + (match banner v with Some _ => 1 | None => 0 end)
  + (if grid v then 1 else 0).

End AppView.

(** ** Kinds of events *)

Module Trace.
Import ShowDetailPage.

Definition is_navigate (e : Event) : bool :=
  match e with
  | Navigate _ => true
  | _ => false
  end.

Definition is_settle (e : Event) : bool :=
  match e with
  | Settle _ _ => true
  | _ => false
  end.

End Trace.

Import Http ShowDetailPage Props.

(** ** Strings *)

Lemma prefix_all (s : string) : String.substring 0 (String.length s) s = s.
Proof. induction s as [|c s IH]; simpl; [reflexivity | now rewrite IH]. Qed.

Lemma prefix_split (n : nat) (s : string) :
  s = String.substring 0 n s ++ String.substring n (String.length s - n) s.
Proof.
  revert s; induction n as [|n IH]; intros s.
  - rewrite Nat.sub_0_r, prefix_all. now destruct s.
  - destruct s as [|c s]; [reflexivity|].
    cbn [String.substring String.length Nat.sub append]. f_equal. apply IH.
Qed.

Lemma prefix_length (n : nat) (s : string) :
  String.length (String.substring 0 n s) = Nat.min n (String.length s).
Proof.
  revert s; induction n as [|n IH]; intros [|c s]; simpl; try reflexivity.
  now rewrite IH.
Qed.

Lemma prefix_whole (n : nat) (s : string) :
  String.length s <= n -> String.substring 0 n s = s.
Proof.
  revert s; induction n as [|n IH]; intros [|c s]; simpl; intros H;
    try reflexivity; try lia.
  f_equal. apply IH. lia.
Qed.

(** [s.substring(0, n)] is the prefix of length [min n (length s)]. *)
Lemma substring_from_0 (s : string) (n : nat) :
  JS.substring s 0 (Z.of_nat n)
  = String.substring 0 (Nat.min n (String.length s)) s.
Proof.
  unfold JS.substring, JS.clamp.
  replace (Z.min (Z.max 0 0) (Z.of_nat (String.length s))) with 0%Z by lia.
  replace (Z.max (Z.of_nat n) 0) with (Z.of_nat n) by lia.
  rewrite Z.min_l by lia.
  rewrite Z.max_r by lia.
  rewrite Z.sub_0_r, <- Nat2Z.inj_min, Nat2Z.id.
  reflexivity.
Qed.

Lemma string_of_uint_nonempty (d : Decimal.uint) :
  NilZero.string_of_uint d <> "".
Proof. destruct d; discriminate. Qed.

Lemma string_of_N_truthy (n : N) :
  JS.truthy (Some (JS.string_of_N n)) = true.
Proof.
  unfold JS.truthy, JS.string_of_N.
  destruct (String.eqb_spec (NilZero.string_of_uint (N.to_uint n)) "") as [E|E].
  - now apply string_of_uint_nonempty in E.
  - reflexivity.
Qed.

(** ** C6: episode summaries *)

(** C6. For every episode, [episodeSummary] is the first 150 characters of
    the description (the whole description when it has fewer) followed by
    the marker "..."; the marker is appended also when the description is
    shorter than 150 characters. *)
Theorem episodeSummary_truncates_and_marks (episode : Episode.t) :
  let d := Episode.description episode in
  (exists prefix rest,
      d = prefix ++ rest
      /\ String.length prefix = Nat.min 150 (String.length d)
      /\ episodeSummary episode = prefix ++ "...")
  /\ (String.length d <= 150 -> episodeSummary episode = d ++ "...").
Proof.
  cbv zeta. unfold episodeSummary.
  change 150%Z with (Z.of_nat 150). rewrite substring_from_0.
  set (d := Episode.description episode).
  split.
  - exists (String.substring 0 (Nat.min 150 (String.length d)) d),
      (String.substring (Nat.min 150 (String.length d))
         (String.length d - Nat.min 150 (String.length d)) d).
    split; [apply prefix_split|].
    split; [|reflexivity].
    rewrite prefix_length. lia.
  - intros H. rewrite prefix_whole by lia. reflexivity.
Qed.

Lemma episodeSummary_short_witness :
  String.length "0123456789" <= 150
  /\ episodeSummary (Scenario.episode "1") = "0123456789...".
Proof.
  split; [simpl; lia|].
  apply (proj2 (episodeSummary_truncates_and_marks (Scenario.episode "1"))).
  simpl; lia.
Defined.

(** ** C7: genre labels *)

(** [find] returns the first matching entry, or nothing when none matches. *)
Lemma find_first_match (l : list Genre.t) (genreId : Z) :
  match JS.find (fun g => (Genre.id g =? genreId)%Z) l with
  | Some g => first_match l genreId g
  | None => forall g, In g l -> Genre.id g <> genreId
  end.
Proof.
  unfold JS.find.
  induction l as [|g l IH]; simpl.
  - intros g [].
  - destruct (Z.eqb_spec (Genre.id g) genreId) as [E|E].
    + exists [], l. repeat split; [exact E | intros g' []].
    + destruct (List.find _ l) as [g0|].
      * destruct IH as (before & after & -> & Hid & Hnone).
        exists (g :: before), after. repeat split; [exact Hid|].
        intros g' [<-|Hin]; [exact E | now apply Hnone].
      * intros g' [<-|Hin]; [exact E | now apply IH].
Qed.

(** The label shown for one genre id. *)
Lemma genreLabels_nth (detail : PodcastShow.t) (ref : list Genre.t) (i : nat) :
  List.nth_error (genreLabels detail ref) i
  = option_map
      (fun genreId =>
         match JS.find (fun g => (Genre.id g =? genreId)%Z) ref with
         | Some g => Genre.title g
         | None => "Unknown (" ++ JS.string_of_Z genreId ++ ")"
         end)
      (List.nth_error (PodcastShow.genres detail) i).
Proof.
  unfold genreLabels, genreTags.
  rewrite List.map_map. cbn [label].
  apply List.nth_error_map.
Qed.

(** C7. [genreLabels] has one label per entry of [detail.genres], in the
    same order and without removing duplicates: the label at position [i]
    is the title of the first reference genre whose id is the [i]-th genre
    id, or "Unknown (<id>)" when no reference genre has that id.  On
    genres [1, 99] with the reference list [{id: 1, title: "Comedy"}] the
    result is ["Comedy", "Unknown (99)"], and the result is a function of
    the two inputs. *)
Theorem genreLabels_by_position (detail : PodcastShow.t)
    (referenceGenres : list Genre.t) :
  let ids := PodcastShow.genres detail in
  let labels := genreLabels detail referenceGenres in
  List.length labels = List.length ids
  /\ (forall i genreId,
         List.nth_error ids i = Some genreId ->
         exists l,
           List.nth_error labels i = Some l
           /\ ((exists g, first_match referenceGenres genreId g
                          /\ l = Genre.title g)
               \/ ((forall g, In g referenceGenres -> Genre.id g <> genreId)
                   /\ l = "Unknown (" ++ JS.string_of_Z genreId ++ ")")))
  /\ (ids = [1; 99]%Z ->
      genreLabels detail Scenario.comedy = ["Comedy"; "Unknown (99)"])
  /\ (forall detail' referenceGenres',
         detail' = detail -> referenceGenres' = referenceGenres ->
         genreLabels detail' referenceGenres' = labels).
Proof.
  cbv zeta. repeat split.
  - unfold genreLabels, genreTags. now rewrite !List.length_map.
  - intros i genreId Hi.
    rewrite genreLabels_nth, Hi. cbn [option_map].
    pose proof (find_first_match referenceGenres genreId) as Hfind.
    destruct (JS.find _ referenceGenres) as [g|].
    + exists (Genre.title g). split; [reflexivity|]. left. now exists g.
    + eexists. split; [reflexivity|]. right. now split.
  - intros Hids. unfold genreLabels, genreTags. rewrite Hids. reflexivity.
  - intros detail' referenceGenres' -> ->. reflexivity.
Qed.

Lemma genreLabels_witness :
  PodcastShow.genres Scenario.showA = [1; 99]%Z
  /\ List.nth_error (PodcastShow.genres Scenario.showA) 1 = Some 99%Z
  /\ genreLabels Scenario.showA Scenario.comedy = ["Comedy"; "Unknown (99)"]
  /\ exists l, List.nth_error (genreLabels Scenario.showA Scenario.comedy) 1
               = Some l.
Proof.
  pose proof (genreLabels_by_position Scenario.showA Scenario.comedy)
    as (_ & Hpos & Hex & _).
  split; [reflexivity|]. split; [reflexivity|].
  split; [apply Hex; reflexivity|].
  destruct (Hpos 1%nat 99%Z eq_refl) as (l & Hl & _).
  exists l. exact Hl.
Defined.

(** ** C8: total episode count *)

Lemma reduce_episode_count (seasons : list Season.t) (acc : nat) :
  JS.reduce (fun acc season => acc + List.length (Season.episodes season))
    acc seasons
  = acc + List.list_sum
            (List.map (fun s => List.length (Season.episodes s)) seasons).
Proof.
  unfold JS.reduce.
  revert acc; induction seasons as [|s seasons IH]; intros acc; simpl.
  - lia.
  - rewrite IH. lia.
Qed.

(** C8. [totalEpisodes] of a loaded show is the sum, over its seasons, of
    the number of episodes of the season; it is 0 when the show has no
    season.  Two seasons with episodes [a, b] and [c] give 3. *)
Theorem totalEpisodes_is_sum (detail : PodcastShow.t) :
  totalEpisodes (Some detail)
  = List.list_sum
      (List.map (fun s => List.length (Season.episodes s))
         (PodcastShow.seasons detail))
  /\ (PodcastShow.seasons detail = [] -> totalEpisodes (Some detail) = 0)
  /\ (forall a b c n1 t1 i1 n2 t2 i2,
         PodcastShow.seasons detail
         = [Season.mk n1 t1 i1 [a; b]; Season.mk n2 t2 i2 [c]] ->
         totalEpisodes (Some detail) = 3).
Proof.
  assert (Hsum : totalEpisodes (Some detail)
                 = List.list_sum
                     (List.map (fun s => List.length (Season.episodes s))
                        (PodcastShow.seasons detail))).
  { unfold totalEpisodes. now rewrite reduce_episode_count. }
  split; [exact Hsum|]. split.
  - intros Hnil. rewrite Hsum, Hnil. reflexivity.
  - intros a b c n1 t1 i1 n2 t2 i2 Hs. rewrite Hsum, Hs. reflexivity.
Qed.

Lemma totalEpisodes_witness :
  PodcastShow.seasons Scenario.showB = []
  /\ totalEpisodes (Some Scenario.showB) = 0
  /\ totalEpisodes (Some Scenario.showA) = 3.
Proof.
  split; [reflexivity|]. split.
  - apply (proj1 (proj2 (totalEpisodes_is_sum Scenario.showB))). reflexivity.
  - rewrite (proj1 (totalEpisodes_is_sum Scenario.showA)). reflexivity.
Defined.

(** ** C4, C5: failure statuses *)

Lemma not_ok_outside_2xx {A : Type} (status : N) (body : Body A) :
  ~ (200 <= status <= 299)%N -> ok (mkResponse status body) = false.
Proof.
  intros H. unfold ok. cbn [Http.status].
  destruct (N.leb_spec 200 status), (N.leb_spec status 299);
    try reflexivity; lia.
Qed.

Lemma ok_inside_2xx {A : Type} (status : N) (body : Body A) :
  (200 <= status <= 299)%N -> ok (mkResponse status body) = true.
Proof.
  intros H. unfold ok. cbn [Http.status].
  destruct (N.leb_spec 200 status), (N.leb_spec status 299);
    try reflexivity; lia.
Qed.

(** C4. Whenever the response to the show-detail request has status 404,
    whatever its body, the [try] block throws the error with message
    "Show not found.", [fetchShowDetails] resolves with [null] and has set
    the error to exactly that message; in the detail view the error cell
    holds "Show not found." and no show is stored.  No other failure status
    produces this error. *)
Theorem fetchShowDetails_404 (body : Body PodcastShow.t) :
  let o := Fulfilled (mkResponse 404 body) in
  Api.fetchShowDetails_try o = inl (mkError "Show not found.")
  /\ (forall (S : Type) (setLoading : bool -> S -> S)
             (setError : option string -> S -> S) (st : S),
         Api.fetchShowDetails_resume setLoading setError o st
         = (None, setLoading false (setError (Some "Show not found.") st)))
  /\ (forall st,
         error (loadShowDetails_resume o st) = Some "Show not found."
         /\ show (loadShowDetails_resume o st) = show st)
  /\ (forall status body',
         ~ (200 <= status <= 299)%N -> status <> 404%N ->
         Api.fetchShowDetails_try (Fulfilled (mkResponse status body'))
         <> inl (mkError "Show not found.")).
Proof.
  cbv zeta. split; [reflexivity|]. split; [reflexivity|]. split.
  - intros st. split; reflexivity.
  - intros status body' Hout Hne.
    unfold Api.fetchShowDetails_try.
    rewrite (not_ok_outside_2xx status body' Hout). cbn [negb Http.status].
    destruct (N.eqb_spec status 404) as [E|E]; [contradiction|].
    discriminate.
Qed.

Lemma fetchShowDetails_404_witness :
  ~ (200 <= 500 <= 299)%N /\ 500%N <> 404%N
  /\ Api.fetchShowDetails_try
       (Fulfilled (mkResponse 500 (Json Scenario.showA)))
     <> inl (mkError "Show not found.").
Proof.
  split; [lia|]. split; [lia|].
  apply (proj2 (proj2 (proj2 (fetchShowDetails_404 (Json Scenario.showA)))));
    lia.
Defined.

(** C5. For every status outside 200-299 and whatever the bodies, both
    helpers end in an error and store no data.  [fetchPodcasts] leaves the
    podcast list as it was and sets the error to the status, so the banner
    reads "Error occurred while fetching podcasts: <status>" and the grid is
    not rendered.  [fetchShowDetails] resolves with [null] and sets the
    error to "Show not found." for 404 and to
    "Failed to fetch show details: <status>" for any other status; the
    detail view stores no show. *)
Theorem non_2xx_is_error (status : N)
    (catalogBody : Body (list PodcastPreview.t))
    (detailBody : Body PodcastShow.t)
    (app : App.State) (st : State) :
  ~ (200 <= status <= 299)%N ->
  let oc := Fulfilled (mkResponse status catalogBody) in
  let od := Fulfilled (mkResponse status detailBody) in
  let detailMessage :=
    if (status =? 404)%N then "Show not found."
    else "Failed to fetch show details: " ++ JS.string_of_N status in
  (App.podcasts (App.fetchCatalog oc app) = App.podcasts app
   /\ App.error (App.fetchCatalog oc app) = Some (JS.string_of_N status)
   /\ App.errorBanner (App.fetchCatalog oc app)
      = Some ("Error occurred while fetching podcasts: "
              ++ JS.string_of_N status)
   /\ App.showsGrid (App.fetchCatalog oc app) = false)
  /\ (Api.fetchShowDetails_resume setLoading setError od st
      = (None, setLoading false (setError (Some detailMessage) st))
      /\ error (loadShowDetails_resume od st) = Some detailMessage
      /\ show (loadShowDetails_resume od st) = show st).
Proof.
  intros Hout. cbv zeta.
  assert (Hd : Api.fetchShowDetails_try
                 (Fulfilled (mkResponse status detailBody))
               = inl (mkError
                        (if (status =? 404)%N then "Show not found."
                         else "Failed to fetch show details: "
                              ++ JS.string_of_N status))).
  { unfold Api.fetchShowDetails_try.
    rewrite (not_ok_outside_2xx status detailBody Hout).
    cbn [negb Http.status]. now destruct (status =? 404)%N. }
  split.
  - unfold App.fetchCatalog, Api.fetchPodcasts, Api.fetchPodcasts_try.
    rewrite (not_ok_outside_2xx status catalogBody Hout).
    cbn [negb Http.status message].
    unfold App.errorBanner, App.showsGrid.
    cbn [App.setLoading App.setError App.podcasts App.error App.loading].
    rewrite string_of_N_truthy. repeat split.
  - unfold loadShowDetails_resume, Api.fetchShowDetails_resume.
    rewrite Hd. cbn [message]. repeat split.
Qed.

Lemma non_2xx_is_error_witness :
  ~ (200 <= 500 <= 299)%N
  /\ App.errorBanner
       (App.fetchCatalog (Fulfilled (mkResponse 500 (Json []))) App.initial)
     = Some "Error occurred while fetching podcasts: 500"
  /\ error (loadShowDetails_resume
              (Fulfilled (mkResponse 500 (Json Scenario.showA)))
              (snd (loadShowDetails_begin "A" initial)))
     = Some "Failed to fetch show details: 500".
Proof.
  assert (H : ~ (200 <= 500 <= 299)%N) by lia.
  split; [exact H|].
  pose proof (non_2xx_is_error 500 (Json []) (Json Scenario.showA) App.initial
                (snd (loadShowDetails_begin "A" initial)) H)
    as ((_ & _ & Hbanner & _) & (_ & Herr & _)).
  split; [exact Hbanner | exact Herr].
Defined.

(** ** C9: the catalog is passed through *)

(** C9. For every successful response whose body parses to the list
    [data], [fetchPodcasts] stores exactly [data]: the stored list has the
    same length and the same element at every position, nothing is
    validated, dropped or moved; no error is set and loading ends. *)
Theorem fetchCatalog_passes_data_through (status : N)
    (data : list PodcastPreview.t) (app : App.State) :
  (200 <= status <= 299)%N ->
  let app' := App.fetchCatalog (Fulfilled (mkResponse status (Json data))) app in
  App.podcasts app' = data
  /\ List.length (App.podcasts app') = List.length data
  /\ (forall i, List.nth_error (App.podcasts app') i = List.nth_error data i)
  /\ App.error app' = App.error app
  /\ App.loading app' = false.
Proof.
  intros Hin. cbv zeta.
  unfold App.fetchCatalog, Api.fetchPodcasts, Api.fetchPodcasts_try.
  rewrite (ok_inside_2xx status (Json data) Hin).
  cbn. repeat split.
Qed.

Lemma fetchCatalog_witness :
  (200 <= 200 <= 299)%N
  /\ App.podcasts
       (App.fetchCatalog
          (Fulfilled
             (mkResponse 200
                (Json [PodcastPreview.mk "2" "b" "" 1 "" [];
                       PodcastPreview.mk "1" "a" "" 3 "" [1%Z]])))
          App.initial)
     = [PodcastPreview.mk "2" "b" "" 1 "" [];
        PodcastPreview.mk "1" "a" "" 3 "" [1%Z]].
Proof.
  assert (H : (200 <= 200 <= 299)%N) by lia.
  split; [exact H|].
  exact (proj1 (fetchCatalog_passes_data_through 200 _ App.initial H)).
Defined.

(** ** How one settled request changes the detail view *)

Lemma try_of_delivers (o : Settled PodcastShow.t) (data : PodcastShow.t) :
  delivers o data -> Api.fetchShowDetails_try o = inr data.
Proof.
  intros (status & Hin & ->). unfold Api.fetchShowDetails_try.
  now rewrite (ok_inside_2xx status (Json data) Hin).
Qed.

Lemma try_of_failed (o : Settled PodcastShow.t) :
  failed o = true -> exists e, Api.fetchShowDetails_try o = inl e.
Proof.
  destruct o as [e|[status body]]; cbn [failed Http.body].
  - intros _. now exists e.
  - unfold Api.fetchShowDetails_try. cbn [Http.body Http.status].
    destruct (ok (mkResponse status body)); cbn [negb orb].
    + destruct body as [e|data]; [now exists e | discriminate].
    + intros _. destruct (status =? 404)%N; eexists; reflexivity.
Qed.

(** A delivered show is stored; the index goes to 0 exactly when the show
    has a season. *)
Lemma resume_delivers (o : Settled PodcastShow.t) (data : PodcastShow.t)
    (st : State) :
  delivers o data ->
  loadShowDetails_resume o st
  = mkState (Some data) false (error st)
      match PodcastShow.seasons data with
      | [] => selectedSeasonIndex st
      | _ :: _ => 0%Z
      end.
Proof.
  intros H. unfold loadShowDetails_resume, Api.fetchShowDetails_resume.
  rewrite (try_of_delivers o data H).
  destruct (PodcastShow.seasons data); reflexivity.
Qed.

(** A failure touches the error and the loading flag only. *)
Lemma resume_failed (o : Settled PodcastShow.t) (e : Error) (st : State) :
  Api.fetchShowDetails_try o = inl e ->
  loadShowDetails_resume o st
  = mkState (show st) false (Some (message e)) (selectedSeasonIndex st).
Proof.
  intros H. unfold loadShowDetails_resume, Api.fetchShowDetails_resume.
  now rewrite H.
Qed.

(** ** C2: a failed fetch and the stored show *)

(** C2, as stated, fails: show A is loaded, the route changes to B, and the
    request for B is answered 404.  The invocation has failed and the view
    still holds A's detail as its show, under the route of B. *)
Lemma failed_fetch_keeps_previous_show :
  let w := run [Settle 0 (Scenario.success Scenario.showA);
                Navigate "B";
                Settle 0 Scenario.notFound] (mount "A") in
  failed Scenario.notFound = true
  /\ id w = "B"
  /\ pending w = []
  /\ show (page w) = Some Scenario.showA
  /\ show (page w) <> None
  /\ PodcastShow.id Scenario.showA <> id w.
Proof. cbv zeta. repeat split; try reflexivity; discriminate. Qed.

(** C2, amended. For every failed invocation (a transport failure, a status
    outside 200-299, or a body that does not parse) the fetch resolves with
    [null], the error is set to the failure's message and loading ends; the
    stored show and the season index are left exactly as they were, so a
    show loaded earlier stays stored.  While the message is not empty the
    view renders the error and not the stored show. *)
Theorem failed_fetch_leaves_show_untouched (o : Settled PodcastShow.t)
    (st : State) :
  failed o = true ->
  exists e,
    Api.fetchShowDetails_try o = inl e
    /\ fst (Api.fetchShowDetails_resume setLoading setError o st) = None
    /\ show (loadShowDetails_resume o st) = show st
    /\ selectedSeasonIndex (loadShowDetails_resume o st)
       = selectedSeasonIndex st
    /\ error (loadShowDetails_resume o st) = Some (message e)
    /\ loading (loadShowDetails_resume o st) = false
    /\ (message e <> "" ->
        forall allGenres,
          render allGenres (loadShowDetails_resume o st)
          = ErrorView (message e)).
Proof.
  intros Hf. destruct (try_of_failed o Hf) as (e & He).
  exists e. split; [exact He|].
  rewrite (resume_failed o e st He).
  unfold Api.fetchShowDetails_resume. rewrite He.
  repeat split.
  intros Hne allGenres. unfold render, JS.truthy. cbn [loading error].
  destruct (String.eqb_spec (message e) ""); [contradiction | reflexivity].
Qed.

Lemma failed_fetch_witness :
  failed Scenario.notFound = true
  /\ show (loadShowDetails_resume Scenario.notFound
             (mkState (Some Scenario.showA) true None 2))
     = Some Scenario.showA.
Proof.
  split; [reflexivity|].
  destruct (failed_fetch_leaves_show_untouched Scenario.notFound
              (mkState (Some Scenario.showA) true None 2) eq_refl)
    as (e & _ & _ & Hshow & _).
  exact Hshow.
Defined.

(** ** C3: the season index *)

Lemma offered_in_range (st : State) (value : Z) :
  List.existsb (Z.eqb value) (offered st) = true ->
  exists s, show st = Some s
            /\ (0 <= value < Z.of_nat (List.length (PodcastShow.seasons s)))%Z.
Proof.
  unfold offered.
  destruct (loading st); [discriminate|].
  destruct (JS.truthy (error st)); [discriminate|].
  destruct (show st) as [s|]; [|discriminate].
  intros H. exists s. split; [reflexivity|].
  apply List.existsb_exists in H. destruct H as (v & Hin & Heq).
  apply Z.eqb_eq in Heq. subst v.
  unfold seasonOptions in Hin. apply List.in_map_iff in Hin.
  destruct Hin as (n & <- & Hn). apply List.in_seq in Hn. lia.
Qed.

Lemma dispatch_keeps_valid_index (e : Event) (w : World) :
  valid_index (page w) -> valid_index (page (dispatch e w)).
Proof.
  intros Hv. destruct e as [id'|k o|value]; cbn [dispatch].
  - destruct (String.eqb id' (id w)); [exact Hv|]. exact Hv.
  - destruct (List.nth_error (pending w) k) as [started|]; [|exact Hv].
    cbn [page].
    destruct (Api.fetchShowDetails_try o) as [e|data] eqn:Htry.
    + rewrite (resume_failed o e _ Htry). exact Hv.
    + unfold loadShowDetails_resume, Api.fetchShowDetails_resume.
      rewrite Htry. unfold valid_index.
      destruct (PodcastShow.seasons data) as [|season l] eqn:Hs; cbn.
      * rewrite Hs. intros Hne. now contradiction Hne.
      * rewrite Hs. intros _. cbn [List.length]. lia.
  - destruct (List.existsb (Z.eqb value) (offered (page w))) eqn:Hoff;
      [|exact Hv].
    destruct (offered_in_range _ _ Hoff) as (s0 & Hs0 & Hrange).
    unfold valid_index. cbn. rewrite Hs0. intros _. exact Hrange.
Qed.

Lemma run_keeps_valid_index (events : list Event) (w : World) :
  valid_index (page w) -> valid_index (page (run events w)).
Proof.
  revert w; induction events as [|e events IH]; intros w Hv; cbn [run].
  - exact Hv.
  - apply IH, dispatch_keeps_valid_index, Hv.
Qed.

Lemma currentSeason_in_range (detail : PodcastShow.t) (index : Z) :
  (0 <= index < Z.of_nat (List.length (PodcastShow.seasons detail)))%Z ->
  exists season,
    currentSeason detail index = Some season
    /\ List.nth_error (PodcastShow.seasons detail) (Z.to_nat index)
       = Some season.
Proof.
  intros H. unfold currentSeason, JS.index.
  destruct (Z.ltb_spec index 0); [lia|].
  destruct (List.nth_error (PodcastShow.seasons detail) (Z.to_nat index))
    as [season|] eqn:E.
  - now exists season.
  - apply List.nth_error_None in E. lia.
Qed.

Lemma currentSeason_out_of_range (detail : PodcastShow.t) (index : Z) :
  ~ (0 <= index < Z.of_nat (List.length (PodcastShow.seasons detail)))%Z ->
  currentSeason detail index = None.
Proof.
  intros H. unfold currentSeason, JS.index.
  destruct (Z.ltb_spec index 0); [reflexivity|].
  apply List.nth_error_None. lia.
Qed.

(** C3, as stated, fails: with show A loaded and its third season selected,
    the route changes to B, whose detail has no season.  B's detail is
    loaded and the index is still 2. *)
Lemma index_kept_when_new_show_has_no_season :
  let w := run [Settle 0 (Scenario.success Scenario.showA);
                SeasonChange 2;
                Navigate "B";
                Settle 0 (Scenario.success Scenario.showB)] (mount "A") in
  show (page w) = Some Scenario.showB
  /\ selectedSeasonIndex (page w) = 2%Z
  /\ selectedSeasonIndex (page w) <> 0%Z.
Proof. cbv zeta. repeat split; discriminate. Qed.

(** C3, amended. When a fetched detail is loaded, the season index is reset
    to 0 if the detail has at least one season and is left as it was if the
    detail has none.  In every state the view reaches from its first
    render, a loaded show with a non-empty seasons list has a valid current
    index.  [currentSeason] is [seasons[index]] for an index in range and
    absent for any other index. *)
Theorem season_index_discipline :
  (forall o data st,
      delivers o data ->
      show (loadShowDetails_resume o st) = Some data
      /\ (PodcastShow.seasons data <> [] ->
          selectedSeasonIndex (loadShowDetails_resume o st) = 0%Z)
      /\ (PodcastShow.seasons data = [] ->
          selectedSeasonIndex (loadShowDetails_resume o st)
          = selectedSeasonIndex st))
  /\ (forall id events, valid_index (page (run events (mount id))))
  /\ (forall detail index,
         ((0 <= index < Z.of_nat (List.length (PodcastShow.seasons detail)))%Z ->
          exists season,
            currentSeason detail index = Some season
            /\ List.nth_error (PodcastShow.seasons detail) (Z.to_nat index)
               = Some season)
         /\ (~ (0 <= index
                < Z.of_nat (List.length (PodcastShow.seasons detail)))%Z ->
             currentSeason detail index = None)).
Proof.
  split; [|split].
  - intros o data st H. rewrite (resume_delivers o data st H). cbn.
    split; [reflexivity|].
    destruct (PodcastShow.seasons data); split; intros; congruence.
  - intros id events. apply run_keeps_valid_index. exact I.
  - intros detail index. split.
    + apply currentSeason_in_range.
    + apply currentSeason_out_of_range.
Qed.

Lemma success_delivers (data : PodcastShow.t) :
  delivers (Scenario.success data) data.
Proof. exists 200%N. split; [lia | reflexivity]. Defined.

Lemma season_index_witness :
  delivers (Scenario.success Scenario.showA) Scenario.showA
  /\ PodcastShow.seasons Scenario.showA <> []
  /\ selectedSeasonIndex
       (loadShowDetails_resume (Scenario.success Scenario.showA)
          (mkState (Some Scenario.showB) true None 5))
     = 0%Z.
Proof.
  split; [apply success_delivers|].
  split; [discriminate|].
  destruct season_index_discipline as (Hload & _ & _).
  destruct (Hload (Scenario.success Scenario.showA) Scenario.showA
              (mkState (Some Scenario.showB) true None 5)
              (success_delivers Scenario.showA)) as (_ & Hreset & _).
  apply Hreset. discriminate.
Defined.

(** ** C1: overlapping invocations *)

Lemma settle_delivers (w : World) (k : nat) (o : Settled PodcastShow.t)
    (data : PodcastShow.t) :
  k < List.length (pending w) ->
  delivers o data ->
  show (page (dispatch (Settle k o) w)) = Some data.
Proof.
  intros Hk Hd. cbn [dispatch].
  destruct (List.nth_error (pending w) k) as [started|] eqn:E.
  - cbn [page]. now rewrite (resume_delivers o data _ Hd).
  - apply List.nth_error_None in E. lia.
Qed.

(** C1, as stated, fails: the route goes from A to B while A's request is
    pending, B's response arrives first and A's response second.  Both
    invocations have completed, the route is B, and the view shows A. *)
Lemma stale_response_overwrites :
  let w := run [Navigate "B";
                Settle 1 (Scenario.success Scenario.showB);
                Settle 0 (Scenario.success Scenario.showA)] (mount "A") in
  id w = "B"
  /\ pending w = []
  /\ show (page w) = Some Scenario.showA
  /\ show (page w) <> Some Scenario.showB.
Proof. cbv zeta. repeat split; discriminate. Qed.

(** C1, amended. Every invocation whose request delivers a show stores that
    show when it settles, whichever id the view is at by then; so the
    visible detail is that of the invocation that delivered last.  After a
    change from id [a] to id [b] with [a]'s request pending, the view ends
    with [b]'s detail when [b]'s response is the later one, and with [a]'s
    detail when [a]'s response is the later one. *)
Theorem last_delivered_show_is_visible :
  (forall w k o data,
      k < List.length (pending w) ->
      delivers o data ->
      show (page (dispatch (Settle k o) w)) = Some data)
  /\ (forall a b oa ob da db,
         a <> b -> delivers oa da -> delivers ob db ->
         let in_order := run [Navigate b; Settle 0 oa; Settle 0 ob] (mount a) in
         let reversed := run [Navigate b; Settle 1 ob; Settle 0 oa] (mount a) in
         (id in_order = b /\ pending in_order = []
          /\ show (page in_order) = Some db)
         /\ (id reversed = b /\ pending reversed = []
             /\ show (page reversed) = Some da)).
Proof.
  split; [exact settle_delivers|].
  intros a b oa ob da db Hab Ha Hb. cbv zeta.
  assert (Hneq : String.eqb b a = false).
  { apply String.eqb_neq. congruence. }
  unfold mount. cbn [run dispatch id pending page].
  rewrite Hneq. cbn [id pending page List.app List.nth_error delete_at
                       List.firstn List.skipn].
  repeat first [ rewrite (resume_delivers oa da _ Ha)
               | rewrite (resume_delivers ob db _ Hb) ].
  repeat split.
Qed.

Lemma last_delivered_witness :
  "A" <> "B"
  /\ delivers (Scenario.success Scenario.showA) Scenario.showA
  /\ delivers (Scenario.success Scenario.showB) Scenario.showB
  /\ show (page (run [Navigate "B";
                      Settle 0 (Scenario.success Scenario.showA);
                      Settle 0 (Scenario.success Scenario.showB)]
                   (mount "A")))
     = Some Scenario.showB.
Proof.
  assert (Hne : "A" <> "B") by discriminate.
  split; [exact Hne|].
  split; [apply success_delivers|]. split; [apply success_delivers|].
  destruct last_delivered_show_is_visible as (_ & Hscenario).
  destruct (Hscenario "A" "B" _ _ _ _ Hne
              (success_delivers Scenario.showA)
              (success_delivers Scenario.showB))
    as ((_ & _ & Hshow) & _).
  exact Hshow.
Defined.

(** ** C10: the loading flag and the error *)

Lemma dispatch_keeps_error_null (e : Event) (w : World) :
  failing_settle e = false ->
  error (page w) = None -> error (page (dispatch e w)) = None.
Proof.
  intros Hnf Hnull. destruct e as [id'|k o|value]; cbn [dispatch].
  - destruct (String.eqb id' (id w)); [exact Hnull | reflexivity].
  - destruct (List.nth_error (pending w) k) as [started|]; [|exact Hnull].
    cbn [page failing_settle] in *.
    destruct (Api.fetchShowDetails_try o) as [e|data] eqn:Htry.
    + exfalso. revert Hnf Htry. unfold Api.fetchShowDetails_try.
      destruct o as [e0|[status body]]; cbn [failed Http.body Http.status];
        [discriminate|].
      destruct (ok (mkResponse status body)); cbn [negb orb];
        [|discriminate].
      destruct body; [discriminate|]. intros _ H. discriminate H.
    + unfold loadShowDetails_resume, Api.fetchShowDetails_resume.
      rewrite Htry.
      destruct (0 <? List.length (PodcastShow.seasons data))%nat;
        exact Hnull.
  - destruct (List.existsb (Z.eqb value) (offered (page w)));
      exact Hnull.
Qed.

Lemma run_keeps_error_null (events : list Event) (w : World) :
  List.forallb (fun e => negb (failing_settle e)) events = true ->
  error (page w) = None -> error (page (run events w)) = None.
Proof.
  revert w; induction events as [|e events IH]; intros w Hall Hnull;
    cbn [run]; [exact Hnull|].
  cbn [List.forallb] in Hall. apply andb_true_iff in Hall.
  destruct Hall as (He & Hall). apply negb_true_iff in He.
  apply IH; [exact Hall|]. now apply dispatch_keeps_error_null.
Qed.

(** C10, as stated, fails: the route goes from A to B while A's request is
    pending; A's request is answered 404, then B's request succeeds.  B's
    invocation has completed, B's show is stored, and the view renders the
    error message of the earlier request for A. *)
Lemma earlier_error_outlives_later_success :
  let w := run [Navigate "B";
                Settle 0 Scenario.notFound;
                Settle 0 (Scenario.success Scenario.showB)] (mount "A") in
  id w = "B"
  /\ pending w = []
  /\ show (page w) = Some Scenario.showB
  /\ loading (page w) = false
  /\ error (page w) = Some "Show not found."
  /\ render Scenario.comedy (page w) = ErrorView "Show not found.".
Proof. cbv zeta. repeat split. Qed.

(** C10, amended. Every invocation of [fetchShowDetails] begins by setting
    loading to true and the error to null, and ends with loading false on
    every path.  When it ends, a failed invocation has set the error to its
    own message, and a successful one leaves the error as it finds it.  So
    an invocation that runs with nothing in between ends with its own
    message or with null; and in general the error is null after a
    successful invocation if it was null at some earlier moment (such as
    the beginning of this invocation) and no invocation has failed since. *)
Theorem fetchShowDetails_loading_discipline (showId : string)
    (o : Settled PodcastShow.t) (st : State) :
  (let st0 := snd (loadShowDetails_begin showId st) in
   loading st0 = true /\ error st0 = None
   /\ show st0 = show st /\ selectedSeasonIndex st0 = selectedSeasonIndex st)
  /\ loading (loadShowDetails_resume o st) = false
  /\ error (loadShowDetails_resume o st)
     = match Api.fetchShowDetails_try o with
       | inl e => Some (message e)
       | inr _ => error st
       end
  /\ (let st' :=
        snd (Api.fetchShowDetails showId setLoading setError o st) in
      loading st' = false
      /\ error st'
         = match Api.fetchShowDetails_try o with
           | inl e => Some (message e)
           | inr _ => None
           end)
  /\ (forall events w k,
         error (page w) = None ->
         List.forallb (fun e => negb (failing_settle e)) events = true ->
         k < List.length (pending (run events w)) ->
         let w' := dispatch (Settle k o) (run events w) in
         loading (page w') = false
         /\ error (page w')
            = match Api.fetchShowDetails_try o with
              | inl e => Some (message e)
              | inr _ => None
              end).
Proof.
  assert (Hresume : forall st1,
             loading (loadShowDetails_resume o st1) = false
             /\ error (loadShowDetails_resume o st1)
                = match Api.fetchShowDetails_try o with
                  | inl e => Some (message e)
                  | inr _ => error st1
                  end).
  { intros st1. unfold loadShowDetails_resume, Api.fetchShowDetails_resume.
    destruct (Api.fetchShowDetails_try o) as [e|data]; [split; reflexivity|].
    destruct (0 <? List.length (PodcastShow.seasons data))%nat;
      split; reflexivity. }
  split; [cbv zeta; repeat split|].
  split; [apply Hresume|]. split; [apply Hresume|].
  split.
  { cbv zeta. unfold Api.fetchShowDetails, Api.fetchShowDetails_resume.
    destruct (Api.fetchShowDetails_try o); split; reflexivity. }
  intros events w k Hnull0 Hall Hk. cbv zeta.
  pose proof (run_keeps_error_null events w Hall Hnull0) as Hnull.
  cbn [dispatch].
  destruct (List.nth_error (pending (run events w)) k) as [started|] eqn:E.
  - cbn [page]. destruct (Hresume (page (run events w))) as (Hl & He).
    split; [exact Hl|]. rewrite He, Hnull. reflexivity.
  - apply List.nth_error_None in E. lia.
Qed.

Lemma loading_discipline_witness :
  error (page (mount "A")) = None
  /\ 0 < List.length (pending (run [Navigate "B"] (mount "A")))
  /\ error (page (dispatch (Settle 0 (Scenario.success Scenario.showA))
                   (run [Navigate "B"] (mount "A"))))
     = None.
Proof.
  split; [reflexivity|]. split; [cbn; lia|].
  destruct (fetchShowDetails_loading_discipline "A"
              (Scenario.success Scenario.showA) initial)
    as (_ & _ & _ & _ & Hlater).
  destruct (Hlater [Navigate "B"] (mount "A") 0 eq_refl eq_refl) as (_ & He).
  - cbn; lia.
  - exact He.
Defined.

(** * Further properties of the code *)

(** ** When the fetch helpers deliver *)

Lemma ok_range {A : Type} (res : Response A) :
  ok res = true <-> (200 <= status res <= 299)%N.
Proof.
  unfold ok. rewrite andb_true_iff, !N.leb_le. reflexivity.
Qed.

Lemma try_inr_delivers (o : Settled PodcastShow.t) (data : PodcastShow.t) :
  Api.fetchShowDetails_try o = inr data -> delivers o data.
Proof.
  destruct o as [e|[status body]]; unfold Api.fetchShowDetails_try;
    [discriminate|].
  destruct (ok (mkResponse status body)) eqn:Hok; cbn [negb].
  - cbn [Http.body]. destruct body as [e|d]; [discriminate|].
    intros [= ->]. exists status. split; [|reflexivity].
    now apply ok_range in Hok.
  - cbn [Http.status]. destruct (status =? 404)%N; discriminate.
Qed.



(** X2. When the catalog request is rejected by the transport, or answered
    with a status in 200-299 and a body that does not parse, [fetchPodcasts]
    leaves the podcast list as it was, sets the error to the thrown error's
    own message and ends loading. *)
Theorem fetchPodcasts_keeps_thrown_message (o : Settled (list PodcastPreview.t))
    (e : Error) (app : App.State) :
  (o = Rejected e
   \/ exists status, (200 <= status <= 299)%N
                     /\ o = Fulfilled (mkResponse status (BadJson e))) ->
  App.fetchCatalog o app
  = App.mkState (App.podcasts app) false (Some (message e)).
Proof.
  intros [->|(status & Hin & ->)];
    unfold App.fetchCatalog, Api.fetchPodcasts, Api.fetchPodcasts_try.
  - reflexivity.
  - rewrite (ok_inside_2xx status (BadJson e) Hin). reflexivity.
Qed.

Lemma fetchPodcasts_thrown_witness :
  App.fetchCatalog (Rejected (mkError "Failed to fetch")) App.initial
  = App.mkState [] false (Some "Failed to fetch").
Proof.
  apply (fetchPodcasts_keeps_thrown_message _ (mkError "Failed to fetch")).
  left. reflexivity.
Defined.

(** X3. When the show request is rejected by the transport, or answered
    with a status in 200-299 and a body that does not parse,
    [fetchShowDetails] resolves with [null]; the detail view keeps its show
    and season index, holds the thrown error's own message as error and is
    not loading. *)
Theorem fetchShowDetails_keeps_thrown_message (o : Settled PodcastShow.t)
    (e : Error) (st : State) :
  (o = Rejected e
   \/ exists status, (200 <= status <= 299)%N
                     /\ o = Fulfilled (mkResponse status (BadJson e))) ->
  fst (Api.fetchShowDetails_resume setLoading setError o st) = None
  /\ loadShowDetails_resume o st
     = mkState (show st) false (Some (message e)) (selectedSeasonIndex st).
Proof.
  intros H.
  assert (Htry : Api.fetchShowDetails_try o = inl e).
  { destruct H as [->|(status & Hin & ->)]; unfold Api.fetchShowDetails_try.
    - reflexivity.
    - now rewrite (ok_inside_2xx status (BadJson e) Hin). }
  split.
  - unfold Api.fetchShowDetails_resume. now rewrite Htry.
  - now apply resume_failed.
Qed.

Lemma fetchShowDetails_thrown_witness :
  (200 <= 200 <= 299)%N
  /\ loadShowDetails_resume
       (Fulfilled (mkResponse 200 (BadJson (mkError "Unexpected token <"))))
       (mkState (Some Scenario.showA) true None 1)
     = mkState (Some Scenario.showA) false (Some "Unexpected token <") 1.
Proof.
  assert (H : (200 <= 200 <= 299)%N) by lia.
  split; [exact H|].
  apply (fetchShowDetails_keeps_thrown_message _
           (mkError "Unexpected token <")).
  right. exists 200%N. split; [exact H | reflexivity].
Defined.

(** ** The catalog page *)

Lemma errorBanner_showsGrid (st : App.State) :
  App.loading st = false ->
  App.showsGrid st
  = match App.errorBanner st with Some _ => false | None => true end.
Proof.
  intros Hl. unfold App.showsGrid, App.errorBanner. rewrite Hl.
  destruct (App.error st) as [m|]; cbn [JS.truthy negb andb];
    [|reflexivity].
  destruct (String.eqb m ""); reflexivity.
Qed.

(** X4. On the catalog page exactly one of the spinner, the error banner
    and the podcast grid is on screen, both before the catalog request
    settles and after it has settled in any way; after it has settled the
    spinner is gone. *)
Theorem app_shows_exactly_one_region (o : Settled (list PodcastPreview.t)) :
  AppView.regions (AppView.render App.initial) = 1
  /\ AppView.spinner (AppView.render App.initial) = true
  /\ AppView.regions (AppView.render (App.fetchCatalog o App.initial)) = 1
  /\ AppView.spinner (AppView.render (App.fetchCatalog o App.initial)) = false.
Proof.
  split; [reflexivity|]. split; [reflexivity|].
  assert (Hl : App.loading (App.fetchCatalog o App.initial) = false)
    by reflexivity.
  unfold AppView.regions, AppView.render.
  cbn [AppView.spinner AppView.banner AppView.grid].
  rewrite (errorBanner_showsGrid _ Hl), Hl.
  split; [|reflexivity].
  destruct (App.errorBanner (App.fetchCatalog o App.initial)); reflexivity.
Qed.

(** X5. A failure whose message is the empty string is not shown on the
    catalog page: the error cell holds the empty string, which is falsy,
    so no banner is rendered and the grid is rendered instead; any failure
    with a non-empty message shows the banner with that message and no
    grid. *)
Theorem app_banner_needs_nonempty_message (e : Error) (app : App.State) :
  let app' := App.fetchCatalog (Rejected e) app in
  (message e = "" ->
   App.error app' = Some ""
   /\ AppView.banner (AppView.render app') = None
   /\ AppView.grid (AppView.render app') = true)
  /\ (message e <> "" ->
      AppView.banner (AppView.render app')
      = Some ("Error occurred while fetching podcasts: " ++ message e)
      /\ AppView.grid (AppView.render app') = false).
Proof.
  cbv zeta. unfold AppView.render, App.errorBanner, App.showsGrid.
  cbn [AppView.banner AppView.grid].
  change (App.fetchCatalog (Rejected e) app)
    with (App.mkState (App.podcasts app) false (Some (message e))).
  cbn [App.error App.loading JS.truthy negb andb].
  split.
  - intros ->. repeat split.
  - intros Hne. destruct (String.eqb_spec (message e) "");
      [contradiction | split; reflexivity].
Qed.

Lemma app_banner_witness :
  message (mkError "") = ""
  /\ AppView.grid
       (AppView.render (App.fetchCatalog (Rejected (mkError "")) App.initial))
     = true.
Proof.
  split; [reflexivity|].
  apply (proj1 (app_banner_needs_nonempty_message (mkError "") App.initial)).
  reflexivity.
Defined.

(** ** Episode cards and summaries *)

Lemma append_length (s t : string) :
  String.length (s ++ t) = String.length s + String.length t.
Proof. induction s as [|c s IH]; simpl; [reflexivity | now rewrite IH]. Qed.

(** X6. An episode summary has [min 150 (length description) + 3]
    characters, so it is never longer than 153 characters and never
    shorter than 3. *)
Theorem episodeSummary_length (episode : Episode.t) :
  String.length (episodeSummary episode)
  = Nat.min 150 (String.length (Episode.description episode)) + 3
  /\ 3 <= String.length (episodeSummary episode) <= 153.
Proof.
  assert (H : String.length (episodeSummary episode)
              = Nat.min 150 (String.length (Episode.description episode)) + 3).
  { unfold episodeSummary. change 150%Z with (Z.of_nat 150).
    rewrite substring_from_0, append_length, prefix_length.
    cbn [String.length]. lia. }
  split; [exact H | lia].
Qed.

Lemma episodeCards_from_nth (episodes : list Episode.t) (start i : nat)
    (episode : Episode.t) :
  List.nth_error episodes i = Some episode ->
  List.nth_error (episodeCards_from start episodes) i
  = Some (mkEpisodeCard (start + i + 1) (Episode.title episode)
            (episodeSummary episode)).
Proof.
  revert start i; induction episodes as [|e episodes IH]; intros start i H.
  - destruct i; discriminate.
  - destruct i as [|i]; cbn [List.nth_error episodeCards_from] in *.
    + injection H as ->. now rewrite Nat.add_0_r.
    + rewrite (IH (S start) i H). do 2 f_equal. lia.
Qed.

Lemma episodeCards_from_length (episodes : list Episode.t) (start : nat) :
  List.length (episodeCards_from start episodes) = List.length episodes.
Proof.
  revert start; induction episodes as [|e episodes IH]; intros start;
    cbn [episodeCards_from List.length]; [reflexivity | now rewrite IH].
Qed.

(** X7. The episodes grid has one card per episode of the season, in the
    season's order: the card at position [i] carries the number [i + 1],
    the title of the [i]-th episode and that episode's summary. *)
Theorem episodeCards_numbered_in_order (episodes : list Episode.t) (i : nat)
    (episode : Episode.t) :
  List.nth_error episodes i = Some episode ->
  List.length (episodeCards_from 0 episodes) = List.length episodes
  /\ List.nth_error (episodeCards_from 0 episodes) i
     = Some (mkEpisodeCard (i + 1) (Episode.title episode)
               (episodeSummary episode)).
Proof.
  intros H. split; [apply episodeCards_from_length|].
  now rewrite (episodeCards_from_nth episodes 0 i episode H).
Qed.

Lemma episodeCards_witness :
  List.nth_error [Scenario.episode "1"; Scenario.episode "2"] 1
  = Some (Scenario.episode "2")
  /\ List.nth_error
       (episodeCards_from 0 [Scenario.episode "1"; Scenario.episode "2"]) 1
     = Some (mkEpisodeCard 2 "Episode 2" "0123456789...").
Proof.
  split; [reflexivity|].
  apply (proj2 (episodeCards_numbered_in_order
                  [Scenario.episode "1"; Scenario.episode "2"] 1
                  (Scenario.episode "2") eq_refl)).
Defined.

(** ** The season select *)

Lemma seasonOptions_in (s : PodcastShow.t) (value : Z) :
  In value (seasonOptions s)
  <-> (0 <= value < Z.of_nat (List.length (PodcastShow.seasons s)))%Z.
Proof.
  unfold seasonOptions. rewrite List.in_map_iff. split.
  - intros (n & <- & Hn). apply List.in_seq in Hn. lia.
  - intros H. exists (Z.to_nat value). split; [lia|].
    apply List.in_seq. lia.
Qed.

(** X8. The values offered by the season select are exactly the valid
    indices of the show's seasons, each once, and every offered value
    selects an existing season. *)
Theorem seasonOptions_are_the_valid_indices (s : PodcastShow.t) :
  (forall value,
      In value (seasonOptions s)
      <-> (0 <= value < Z.of_nat (List.length (PodcastShow.seasons s)))%Z)
  /\ List.NoDup (seasonOptions s)
  /\ List.length (seasonOptions s) = List.length (PodcastShow.seasons s)
  /\ (forall value,
         In value (seasonOptions s) ->
         exists season, currentSeason s value = Some season).
Proof.
  split; [apply seasonOptions_in|]. split; [|split].
  - unfold seasonOptions. apply List.NoDup_map_inv with (f := Z.to_nat).
    rewrite List.map_map.
    rewrite (List.map_ext _ (fun n => n) Nat2Z.id), List.map_id.
    apply List.seq_NoDup.
  - unfold seasonOptions. now rewrite List.length_map, List.length_seq.
  - intros value Hin. apply seasonOptions_in in Hin.
    destruct (currentSeason_in_range s value Hin) as (season & Hs & _).
    now exists season.
Qed.

Lemma seasonOptions_witness :
  In 2%Z (seasonOptions Scenario.showA)
  /\ exists season, currentSeason Scenario.showA 2 = Some season.
Proof.
  assert (Hin : In 2%Z (seasonOptions Scenario.showA)).
  { cbn. right. right. left. reflexivity. }
  split; [exact Hin|].
  destruct (seasonOptions_are_the_valid_indices Scenario.showA)
    as (_ & _ & _ & Hpick).
  exact (Hpick 2%Z Hin).
Defined.

Lemma seasonOptionElements_from_nth (seasons : list Season.t) (start i : nat)
    (season : Season.t) :
  List.nth_error seasons i = Some season ->
  List.nth_error (Markup.seasonOptionElements_from start seasons) i
  = Some (Markup.mkSeasonOption (Season.season season) (Z.of_nat (start + i))
            ("Season " ++ JS.string_of_Z (Season.season season))).
Proof.
  revert start i; induction seasons as [|s seasons IH]; intros start i H.
  - destruct i; discriminate.
  - destruct i as [|i];
      cbn [List.nth_error Markup.seasonOptionElements_from] in *.
    + injection H as ->. now rewrite Nat.add_0_r.
    + rewrite (IH (S start) i H). do 3 f_equal. lia.
Qed.

Lemma seasonOptionElements_from_values (seasons : list Season.t) (start : nat) :
  List.map Markup.optionValue (Markup.seasonOptionElements_from start seasons)
  = List.map Z.of_nat (List.seq start (List.length seasons)).
Proof.
  revert start; induction seasons as [|s seasons IH]; intros start;
    cbn [Markup.seasonOptionElements_from List.map List.length List.seq
         Markup.optionValue]; [reflexivity | now rewrite IH].
Qed.

(** X9. The season select has one option per season, in the order of the
    seasons: the option at position [i] has value [i], shows the text
    "Season <n>" and has key [n], where [n] is the season number of the
    [i]-th season.  The values of the options, read in order, are
    [0, 1, ..., length - 1]. *)
Theorem seasonOptionElements_by_position (s : PodcastShow.t) (i : nat)
    (season : Season.t) :
  List.nth_error (PodcastShow.seasons s) i = Some season ->
  List.nth_error (Markup.seasonOptionElements s) i
  = Some (Markup.mkSeasonOption (Season.season season) (Z.of_nat i)
            ("Season " ++ JS.string_of_Z (Season.season season)))
  /\ List.map Markup.optionValue (Markup.seasonOptionElements s)
     = seasonOptions s.
Proof.
  intros H. unfold Markup.seasonOptionElements. split.
  - now rewrite (seasonOptionElements_from_nth _ 0 i season H).
  - apply seasonOptionElements_from_values.
Qed.

Lemma seasonOptionElements_witness :
  List.nth_error (PodcastShow.seasons Scenario.showA) 1
  = Some (Season.mk 2 "Season 2" "a2.png" [Scenario.episode "3"])
  /\ List.nth_error (Markup.seasonOptionElements Scenario.showA) 1
     = Some (Markup.mkSeasonOption 2 1 "Season 2").
Proof.
  split; [reflexivity|].
  apply (proj1 (seasonOptionElements_by_position Scenario.showA 1 _ eq_refl)).
Defined.

(** X10. Choosing any value the season select offers puts exactly that
    season on screen: the view is the detail view of the same show with
    the chosen value selected and the episode list of the season at that
    index. *)
Theorem chosen_season_is_displayed (allGenres : list Genre.t) (st : State)
    (value : Z) :
  List.existsb (Z.eqb value) (offered st) = true ->
  exists s season,
    show st = Some s
    /\ List.nth_error (PodcastShow.seasons s) (Z.to_nat value) = Some season
    /\ render allGenres (handleSeasonChange value st)
       = DetailView s (genreTags (Some s) allGenres) (totalEpisodes (Some s))
           (seasonOptions s) value
           (Some (season, episodeCards_from 0 (Season.episodes season))).
Proof.
  intros Hoff.
  destruct (offered_in_range st value Hoff) as (s & Hs & Hrange).
  destruct (currentSeason_in_range s value Hrange) as (season & Hcur & Hnth).
  exists s, season. split; [exact Hs|]. split; [exact Hnth|].
  revert Hoff. unfold offered, render, handleSeasonChange.
  cbn [setSelectedSeasonIndex loading error show selectedSeasonIndex].
  destruct (loading st); [discriminate|].
  destruct (JS.truthy (error st)); [discriminate|].
  rewrite Hs, Hcur. reflexivity.
Qed.

Lemma chosen_season_witness :
  List.existsb (Z.eqb 1)
    (offered (mkState (Some Scenario.showA) false None 0)) = true
  /\ exists s season,
       render Scenario.comedy
         (handleSeasonChange 1 (mkState (Some Scenario.showA) false None 0))
       = DetailView s (genreTags (Some s) Scenario.comedy)
           (totalEpisodes (Some s)) (seasonOptions s) 1
           (Some (season, episodeCards_from 0 (Season.episodes season))).
Proof.
  split; [reflexivity|].
  destruct (chosen_season_is_displayed Scenario.comedy
              (mkState (Some Scenario.showA) false None 0) 1 eq_refl)
    as (s & season & _ & _ & Hr).
  exists s, season. exact Hr.
Defined.

(** X11. When a show is delivered and no truthy error is held, the view is
    the detail view of that show: with its first season's episode list and
    index 0 if the show has a season, and with no episode list and the
    index left as it was if it has none. *)
Theorem delivered_show_is_displayed (allGenres : list Genre.t)
    (o : Settled PodcastShow.t) (data : PodcastShow.t) (st : State) :
  delivers o data ->
  JS.truthy (error st) = false ->
  render allGenres (loadShowDetails_resume o st)
  = DetailView data (genreTags (Some data) allGenres)
      (totalEpisodes (Some data)) (seasonOptions data)
      match PodcastShow.seasons data with
      | [] => selectedSeasonIndex st
      | _ :: _ => 0%Z
      end
      match PodcastShow.seasons data with
      | [] => None
      | first :: _ =>
          Some (first, episodeCards_from 0 (Season.episodes first))
      end.
Proof.
  intros Hd He. rewrite (resume_delivers o data st Hd).
  unfold render. cbn [loading error show selectedSeasonIndex]. rewrite He.
  unfold currentSeason, JS.index.
  destruct (PodcastShow.seasons data) as [|first rest]; [|reflexivity].
  destruct (selectedSeasonIndex st <? 0)%Z; [reflexivity|].
  now destruct (Z.to_nat (selectedSeasonIndex st)).
Qed.

Lemma delivered_show_witness :
  delivers (Scenario.success Scenario.showB) Scenario.showB
  /\ JS.truthy (error (mkState (Some Scenario.showA) true None 2)) = false
  /\ render Scenario.comedy
       (loadShowDetails_resume (Scenario.success Scenario.showB)
          (mkState (Some Scenario.showA) true None 2))
     = DetailView Scenario.showB [mkGenreTag 2 "Unknown (2)"] 0 [] 2 None.
Proof.
  split; [apply success_delivers|]. split; [reflexivity|].
  apply (delivered_show_is_displayed Scenario.comedy
           (Scenario.success Scenario.showB) Scenario.showB
           (mkState (Some Scenario.showA) true None 2)
           (success_delivers Scenario.showB) eq_refl).
Defined.

(** ** Episode totals *)

Lemma list_sum_ge {A : Type} (f : A -> nat) (l : list A) (x : A) :
  In x l -> f x <= List.list_sum (List.map f l).
Proof.
  unfold List.list_sum.
  induction l as [|y l IH]; intros Hin; [destruct Hin|].
  cbn [List.map List.fold_right].
  destruct Hin as [->|Hin]; [lia|].
  specialize (IH Hin). lia.
Qed.

Lemma list_sum_zero {A : Type} (f : A -> nat) (l : list A) :
  List.list_sum (List.map f l) = 0 <-> List.Forall (fun x => f x = 0) l.
Proof.
  unfold List.list_sum.
  induction l as [|y l IH]; cbn [List.map List.fold_right].
  - split; [constructor | reflexivity].
  - split.
    + intros H. constructor; [lia|]. apply IH. lia.
    + intros H. inversion H as [|? ? Hy Hl]; subst.
      apply IH in Hl. lia.
Qed.

(** X12. The episode count shown for the current season never exceeds the
    total episode count shown for the show. *)
Theorem season_count_within_total (s : PodcastShow.t) (index : Z)
    (season : Season.t) :
  currentSeason s index = Some season ->
  List.length (Season.episodes season) <= totalEpisodes (Some s).
Proof.
  unfold currentSeason, JS.index. intros H.
  destruct (index <? 0)%Z; [discriminate|].
  apply List.nth_error_In in H.
  unfold totalEpisodes. rewrite reduce_episode_count. cbn [Nat.add].
  exact (list_sum_ge (fun x => List.length (Season.episodes x)) _ _ H).
Qed.

Lemma season_count_witness :
  currentSeason Scenario.showA 0
  = Some (Season.mk 1 "Season 1" "a1.png"
            [Scenario.episode "1"; Scenario.episode "2"])
  /\ 2 <= totalEpisodes (Some Scenario.showA).
Proof.
  split; [reflexivity|].
  apply (season_count_within_total Scenario.showA 0
           (Season.mk 1 "Season 1" "a1.png"
              [Scenario.episode "1"; Scenario.episode "2"]) eq_refl).
Defined.

(** X13. The total episode count of a loaded show is 0 exactly when every
    one of its seasons has no episode, and it is 0 when no show is
    loaded. *)
Theorem totalEpisodes_zero_iff (s : PodcastShow.t) :
  (totalEpisodes (Some s) = 0
   <-> List.Forall (fun season => Season.episodes season = [])
         (PodcastShow.seasons s))
  /\ totalEpisodes None = 0.
Proof.
  split; [|reflexivity].
  unfold totalEpisodes. rewrite reduce_episode_count. cbn [Nat.add].
  rewrite list_sum_zero. split; intros H;
    (eapply List.Forall_impl; [|exact H]); cbn beta; intros season.
  - apply List.length_zero_iff_nil.
  - intros ->. reflexivity.
Qed.

(** ** Genre tags *)

(** X14. The keys of the genre tags are the show's genre ids in order;
    with no show there is no tag.  If every genre id of the show occurs in
    the reference list, every label is the title of a reference genre;
    with an empty reference list every label is "Unknown (<id>)". *)
Theorem genreTags_keys_and_titles (detail : PodcastShow.t)
    (allGenres : list Genre.t) :
  List.map key (genreTags (Some detail) allGenres) = PodcastShow.genres detail
  /\ genreTags None allGenres = []
  /\ ((forall genreId, In genreId (PodcastShow.genres detail) ->
         exists g, In g allGenres /\ Genre.id g = genreId) ->
      List.Forall (fun l => In l (List.map Genre.title allGenres))
        (genreLabels detail allGenres))
  /\ genreLabels detail []
     = List.map (fun genreId => "Unknown (" ++ JS.string_of_Z genreId ++ ")")
         (PodcastShow.genres detail).
Proof.
  split; [|split; [reflexivity|split]].
  - unfold genreTags. rewrite List.map_map. cbn [key]. apply List.map_id.
  - intros Hknown. unfold genreLabels, genreTags. rewrite List.map_map.
    cbn [label]. apply List.Forall_forall. intros l Hin.
    apply List.in_map_iff in Hin. destruct Hin as (genreId & <- & Hid).
    pose proof (find_first_match allGenres genreId) as Hfind.
    destruct (JS.find _ allGenres) as [g|].
    + destruct Hfind as (before & after & -> & _ & _).
      apply List.in_map. apply List.in_or_app. right. now left.
    + destruct (Hknown genreId Hid) as (g & Hg & Hgid).
      now destruct (Hfind g Hg).
  - unfold genreLabels, genreTags. rewrite List.map_map. reflexivity.
Qed.

Lemma genreTags_witness :
  (forall genreId, In genreId [1%Z] ->
     exists g, In g Scenario.comedy /\ Genre.id g = genreId)
  /\ List.Forall (fun l => In l (List.map Genre.title Scenario.comedy))
       (genreLabels (PodcastShow.mk "C" "" "" "" "" [1%Z] []) Scenario.comedy).
Proof.
  assert (H : forall genreId, In genreId [1%Z] ->
                exists g, In g Scenario.comedy /\ Genre.id g = genreId).
  { intros genreId [<-|[]]. exists (Genre.mk 1 "Comedy").
    split; [left|]; reflexivity. }
  split; [exact H|].
  destruct (genreTags_keys_and_titles (PodcastShow.mk "C" "" "" "" "" [1%Z] [])
              Scenario.comedy) as (_ & _ & Hall & _).
  exact (Hall H).
Defined.

(** ** The detail view over time *)

Lemma dispatch_show (e : Event) (w : World) :
  show (page (dispatch e w)) = show (page w)
  \/ exists k o data,
       e = Settle k o /\ delivers o data
       /\ show (page (dispatch e w)) = Some data.
Proof.
  destruct e as [id'|k o|value]; cbn [dispatch].
  - left. now destruct (String.eqb id' (id w)).
  - destruct (List.nth_error (pending w) k) as [started|]; [|now left].
    cbn [page].
    destruct (Api.fetchShowDetails_try o) as [e|data] eqn:Htry.
    + left. now rewrite (resume_failed o e _ Htry).
    + right. exists k, o, data. split; [reflexivity|].
      pose proof (try_inr_delivers o data Htry) as Hd.
      split; [exact Hd|]. now rewrite (resume_delivers o data _ Hd).
  - left. now destruct (List.existsb (Z.eqb value) (offered (page w))).
Qed.

Lemma run_show (events : list Event) (w : World) :
  show (page (run events w)) = show (page w)
  \/ exists k o data,
       In (Settle k o) events /\ delivers o data
       /\ show (page (run events w)) = Some data.
Proof.
  revert w; induction events as [|e events IH]; intros w; cbn [run].
  - now left.
  - destruct (IH (dispatch e w)) as [Hsame|(k & o & data & Hin & Hd & Hs)].
    + destruct (dispatch_show e w) as [He|(k & o & data & -> & Hd & Hs)].
      * left. congruence.
      * right. exists k, o, data. split; [now left|].
        split; [exact Hd | congruence].
    + right. exists k, o, data. split; [now right|]. now split.
Qed.

(** X15. Whatever happens on the detail page, the stored show is either
    the one stored before or the body delivered by one of the responses
    that arrived; in particular a stored show is never cleared: neither a
    failure, nor a change of id, nor a season change removes it. *)
Theorem show_changes_only_by_delivery (events : list Event) (w : World) :
  (show (page (run events w)) = show (page w)
   \/ exists k o data,
        In (Settle k o) events /\ delivers o data
        /\ show (page (run events w)) = Some data)
  /\ (show (page w) <> None -> show (page (run events w)) <> None).
Proof.
  split; [apply run_show|].
  intros Hsome.
  destruct (run_show events w) as [Hsame|(k & o & data & _ & _ & Hs)].
  - now rewrite Hsame.
  - now rewrite Hs.
Qed.

Lemma show_never_cleared_witness :
  show (page (mkWorld (mkState (Some Scenario.showA) false None 0) "A" ["A"]))
  <> None
  /\ show (page (run [Navigate "B"; Settle 1 Scenario.notFound;
                      Settle 0 (Rejected (mkError "offline"))]
                   (mkWorld (mkState (Some Scenario.showA) false None 0)
                      "A" ["A"])))
     <> None.
Proof.
  assert (H : show (page (mkWorld (mkState (Some Scenario.showA) false None 0)
                            "A" ["A"])) <> None) by discriminate.
  split; [exact H|].
  apply (proj2 (show_changes_only_by_delivery _ _) H).
Defined.

Lemma dispatch_keeps_error_set (e : Event) (w : World) :
  Trace.is_navigate e = false ->
  error (page w) <> None -> error (page (dispatch e w)) <> None.
Proof.
  intros Hn Herr. destruct e as [id'|k o|value]; [discriminate| |];
    cbn [dispatch].
  - destruct (List.nth_error (pending w) k) as [started|]; [|exact Herr].
    cbn [page].
    destruct (Api.fetchShowDetails_try o) as [e|data] eqn:Htry.
    + rewrite (resume_failed o e _ Htry). discriminate.
    + rewrite (resume_delivers o data _ (try_inr_delivers o data Htry)).
      exact Herr.
  - now destruct (List.existsb (Z.eqb value) (offered (page w))).
Qed.

(** X16. An error held by the detail view is cleared only by a change of
    id: as long as the id does not change, no response, successful or not,
    and no season change sets the error back to null. *)
Theorem error_cleared_only_by_navigation (events : list Event) (w : World) :
  List.forallb (fun e => negb (Trace.is_navigate e)) events = true ->
  error (page w) <> None ->
  error (page (run events w)) <> None.
Proof.
  revert w; induction events as [|e events IH]; intros w Hall Herr;
    cbn [run]; [exact Herr|].
  cbn [List.forallb] in Hall. apply andb_true_iff in Hall.
  destruct Hall as (He & Hall). apply negb_true_iff in He.
  apply IH; [exact Hall|]. now apply dispatch_keeps_error_set.
Qed.

Lemma error_cleared_witness :
  error (page (run [Settle 0 Scenario.notFound] (mount "A"))) <> None
  /\ error (page (run [Settle 0 (Scenario.success Scenario.showA)]
                    (run [Navigate "B"; Settle 1 Scenario.notFound]
                       (mount "A"))))
     <> None.
Proof.
  split; [discriminate|].
  apply (error_cleared_only_by_navigation
           [Settle 0 (Scenario.success Scenario.showA)]
           (run [Navigate "B"; Settle 1 Scenario.notFound] (mount "A"))
           eq_refl).
  discriminate.
Defined.

Lemma dispatch_keeps_spinner (e : Event) (w : World) :
  Trace.is_settle e = false ->
  loading (page w) = true /\ show (page w) = None ->
  loading (page (dispatch e w)) = true /\ show (page (dispatch e w)) = None.
Proof.
  intros Hn (Hl & Hs). destruct e as [id'|k o|value]; [|discriminate|];
    cbn [dispatch].
  - destruct (String.eqb id' (id w)); [now split|]. now split.
  - unfold offered. rewrite Hl. cbn [List.existsb]. now split.
Qed.

(** X17. From the first render of the detail page until the first response
    arrives, whatever changes of id happen, the page shows the loading
    spinner and holds no show. *)
Theorem spinner_until_first_response (allGenres : list Genre.t)
    (id : string) (events : list Event) :
  List.forallb (fun e => negb (Trace.is_settle e)) events = true ->
  render allGenres (page (run events (mount id))) = LoadingView
  /\ show (page (run events (mount id))) = None.
Proof.
  intros Hall.
  assert (H : loading (page (run events (mount id))) = true
              /\ show (page (run events (mount id))) = None).
  { assert (H0 : loading (page (mount id)) = true
                 /\ show (page (mount id)) = None) by (split; reflexivity).
    revert Hall H0. generalize (mount id) as w.
    induction events as [|e events IH]; intros w Hall H0; cbn [run];
      [exact H0|].
    cbn [List.forallb] in Hall. apply andb_true_iff in Hall.
    destruct Hall as (He & Hall). apply negb_true_iff in He.
    apply IH; [exact Hall|]. now apply dispatch_keeps_spinner. }
  destruct H as (Hl & Hs). split; [|exact Hs].
  unfold render. now rewrite Hl.
Qed.

Lemma spinner_witness :
  render Scenario.comedy
    (page (run [Navigate "B"; SeasonChange 0; Navigate "A"] (mount "A")))
  = LoadingView.
Proof.
  apply (proj1 (spinner_until_first_response Scenario.comedy "A"
                  [Navigate "B"; SeasonChange 0; Navigate "A"] eq_refl)).
Defined.

Lemma dispatch_keeps_something (e : Event) (w : World) :
  loading (page w) = true \/ show (page w) <> None \/ error (page w) <> None ->
  loading (page (dispatch e w)) = true
  \/ show (page (dispatch e w)) <> None
  \/ error (page (dispatch e w)) <> None.
Proof.
  intros H. destruct e as [id'|k o|value]; cbn [dispatch].
  - destruct (String.eqb id' (id w)); [exact H | now left].
  - destruct (List.nth_error (pending w) k) as [started|]; [|exact H].
    cbn [page].
    destruct (Api.fetchShowDetails_try o) as [e|data] eqn:Htry.
    + rewrite (resume_failed o e _ Htry). right. right. discriminate.
    + rewrite (resume_delivers o data _ (try_inr_delivers o data Htry)).
      right. left. discriminate.
  - now destruct (List.existsb (Z.eqb value) (offered (page w))).
Qed.

(** X18. For responses of the declared shape, the "Show not found." panel
    of the detail page is reached only through a failure whose message is
    the empty string: whenever the page renders that panel it holds no
    show and its error is the empty string.  A 404 is rendered by the error
    panel instead. *)
Theorem not_found_panel_only_after_empty_message (allGenres : list Genre.t)
    (id : string) (events : list Event) :
  render allGenres (page (run events (mount id))) = NotFoundView ->
  show (page (run events (mount id))) = None
  /\ error (page (run events (mount id))) = Some "".
Proof.
  assert (Hinv : loading (page (run events (mount id))) = true
                 \/ show (page (run events (mount id))) <> None
                 \/ error (page (run events (mount id))) <> None).
  { assert (H0 : loading (page (mount id)) = true
                 \/ show (page (mount id)) <> None
                 \/ error (page (mount id)) <> None) by now left.
    revert H0. generalize (mount id) as w.
    induction events as [|e events IH]; intros w H0; cbn [run]; [exact H0|].
    apply IH. now apply dispatch_keeps_something. }
  revert Hinv. generalize (page (run events (mount id))) as st.
  intros st Hinv. unfold render, JS.truthy.
  destruct (loading st); [discriminate|].
  destruct (error st) as [m|].
  - destruct (String.eqb_spec m "") as [->|Hne]; cbn [negb]; [|discriminate].
    destruct (show st); [discriminate|]. now split.
  - destruct (show st); [discriminate|].
    destruct Hinv as [H|[H|H]]; [discriminate | now destruct H | now destruct H].
Qed.

Lemma not_found_panel_witness :
  render Scenario.comedy
    (page (run [Settle 0 (Rejected (mkError ""))] (mount "A")))
  = NotFoundView
  /\ error (page (run [Settle 0 (Rejected (mkError ""))] (mount "A")))
     = Some "".
Proof.
  split; [reflexivity|].
  apply (proj2 (not_found_panel_only_after_empty_message Scenario.comedy "A"
                  [Settle 0 (Rejected (mkError ""))] eq_refl)).
Defined.
